(** * fix_orders.py: the replace-first / drop-rest line patcher

    A shallow embedding of [src/fix_orders.py] and the properties of its
    scan loop.  The script reads a file as a list of lines, walks it with
    an explicit cursor [i], replaces the first matched route by a fixed
    template, drops every later matched route, and writes the result back
    over the same path. *)

From Stdlib Require Import ZArith String Ascii Lia.
From stdpp Require Import base list strings.

Local Open Scope Z_scope.
Local Open Scope nat_scope.

(** ** Python values used by the script *)

Module Py.

(** The exceptions the script can meet: [IndexError] from a subscript,
    [FileNotFoundError] and [PermissionError] from [open],
    [UnicodeDecodeError] from reading, [OSError] from writing. *)
Inductive exn :=
| IndexError
| FileNotFoundError
| PermissionError
| UnicodeDecodeError
| OSError.

(** Outcome of running a piece of the script: a value, an exception, or a
    [while] loop that used up the iterations it was given. *)
Inductive result (A : Type) : Type :=
| Done (a : A)
| Raised (e : exn)
| Diverged.
Arguments Done {A} a.
Arguments Raised {A} e.
Arguments Diverged {A}.

(** Sequencing: an exception or a loop that ran dry ends the run. *)
#[global] Instance result_bind : MBind result := fun A B k c =>
  match c with
  | Done a => k a
  | Raised e => Raised e
  | Diverged => Diverged
  end.

(** [l[k]] with Python's rule for negative subscripts: [-1] is the last
    element, and anything outside [-len(l) .. len(l)-1] raises. *)
Definition getitem {A} (l : list A) (k : Z) : result A :=
  let n := Z.of_nat (length l) in
  if ((k <? - n) || (n <=? k))%Z then Raised IndexError
  else match l !! Z.to_nat (if (k <? 0)%Z then (k + n)%Z else k) with
       | Some a => Done a
       | None => Raised IndexError
       end.

(** [sub in s] on strings: [sub] occurs somewhere in [s]. *)
Fixpoint contains (sub s : string) : bool :=
  String.prefix sub s ||
  match s with
  | EmptyString => false
  | String _ s' => contains sub s'
  end.

(** The line feed that ends every literal of the script. *)
Definition nl : string := String (ascii_of_nat 10) EmptyString.

(** The text followed by a line feed. *)
Definition ln (text : string) : string := text +:+ nl.

End Py.
Import Py.

(** ** The scan loop *)

(** The variables the loop updates.  [i] only ever grows from [0], so it is
    a natural number; the subscript [i-1] is computed in [Z] where it is
    used.  ([skip_until_end_of_route] is assigned once in the script and
    never read or written again, so it carries no state.) *)
Record state := State {
  i : nat;
  new_lines : list string;
  found_first_route : bool
}.

Section Patcher.

(** The five literals of the script, abstracted: the two tests of the
    anchor ([signature] on [lines[i]], [marker] on [lines[i-1]]), the test
    that ends the first block, the test that ends every later block, and
    the lines appended for the first block. *)
Variables (signature marker : string -> bool).
Variables (terminator_first terminator_rest : string -> bool).
Variable (template : list string).

Section Scan.

Variable (lines : list string).

(** The condition of the [if] at line 17:
    [signature(line) and marker(lines[i-1])], with [and] evaluating its
    right operand only when the left one holds.  There is no [i > 0] in
    it: at [i = 0] the subscript is [-1]. *)
Definition anchor_cond (line : string) (i : nat) : result bool :=
  if signature line
  then prev ← getitem lines (Z.of_nat i - 1)%Z; Done (marker prev)
  else Done false.

(** The same condition at cursor [i], reading [line = lines[i]] first as
    line 14 does. *)
Definition anchor_test (i : nat) : result bool :=
  line ← getitem lines (Z.of_nat i);
  anchor_cond line i.

(** The inner loops at lines 54-55 and 61-62:
    [while i < len(lines) and not term(lines[i]): i += 1]. *)
Fixpoint scan (term : string -> bool) (fuel : nat) (i : nat) : result nat :=
  match fuel with
  | O => Diverged
  | S fuel' =>
    if i <? length lines then
      line ← getitem lines (Z.of_nat i);
      if negb (term line) then scan term fuel' (i + 1) else Done i
    else Done i
  end.

(** One turn of the outer loop (lines 14-67), entered with
    [i < len(lines)].  The first branch is lines 18-57, the second lines
    58-64, the last lines 66-67. *)
Definition body (fuel : nat) (s : state) : result state :=
  line ← getitem lines (Z.of_nat (i s));
  hit ← anchor_cond line (i s);
  if (hit : bool) then
    if negb (found_first_route s) then
      j ← scan terminator_first fuel (i s);
      Done (State (j + 1) (new_lines s ++ template) true)
    else
      j ← scan terminator_rest fuel (i s);
      Done (State (j + 1) (new_lines s) (found_first_route s))
  else
    Done (State (i s + 1) (new_lines s ++ [line]) (found_first_route s)).

(** The outer loop at line 13: [while i < len(lines): ...]. *)
Fixpoint loop (fuel : nat) (s : state) : result state :=
  match fuel with
  | O => Diverged
  | S fuel' =>
    if i s <? length lines then
      s' ← body fuel' s; loop fuel' s'
    else Done s
  end.

(** Lines 8-12. *)
Definition init : state := State 0 [] false.

(** The blocks the scan matches, in scan order: for each turn of the outer
    loop whose anchor test holds, the cursor at the match and the cursor
    the turn leaves behind (one past the block's last line). *)
Fixpoint blocks_from (fuel : nat) (s : state) : list (nat * nat) :=
  match fuel with
  | O => []
  | S fuel' =>
    if i s <? length lines then
      match body fuel' s, anchor_test (i s) with
      | Done s', Done hit =>
        (if hit then [(i s, i s')] else []) ++ blocks_from fuel' s'
      | _, _ => []
      end
    else []
  end.

End Scan.

(** Lines 8-67 as a function of the lines read: the loop run from the
    initial state, returning [new_lines].  [len(lines) + 2] turns are
    enough for every input ([patch_total_deterministic]). *)
Definition patch_fuel (fuel : nat) (lines : list string) : result (list string) :=
  s ← loop lines fuel init; Done (new_lines s).

Definition patch (lines : list string) : result (list string) :=
  patch_fuel (length lines + 2) lines.

Definition blocks (lines : list string) : list (nat * nat) :=
  blocks_from lines (length lines + 2) init.

End Patcher.

(** ** The script's own literals *)

Definition route_signature : string -> bool := contains "router.get('/',".
Definition route_marker : string -> bool := contains "Get all orders".
Definition first_route_end : string -> bool := contains ".toArray();".
Definition second_route_end : string -> bool := contains "});".

(** Lines 21-49. *)
Definition filtered_route : list string :=
  [ ln "// GET /api/orders - Get all orders with optional date filtering";
    ln "router.get('/', async (req, res) => {";
    ln "  try {";
    ln "    const { startDate, endDate } = req.query;";
    ln "    const db = await getMongoDb();";
    ln "";
    ln "    // Prepare filter query";
    ln "    const query: any = {};";
    ln "    if (startDate || endDate) {";
    ln "      query.createdAt = {};";
    ln "      if (startDate) {";
    ln "        const start = new Date(startDate as string);";
    ln "        if (!isNaN(start.getTime())) query.createdAt.$gte = start;";
    ln "      }";
    ln "      if (endDate) {";
    ln "        const end = new Date(endDate as string);";
    ln "        if (!isNaN(end.getTime())) {";
    ln "          const endOfDay = new Date(end);";
    ln "          endOfDay.setHours(23, 59, 59, 999);";
    ln "          query.createdAt.$lte = endOfDay;";
    ln "        }";
    ln "      }";
    ln "    }";
    ln "";
    ln "    // Fetch orders";
    ln "    const orders = await db.collection('orders')";
    ln "      .find(query)";
    ln "      .sort({ createdAt: -1 })";
    ln "      .toArray();" ].

(** The loop of the script. *)
Definition fix_orders : list string -> result (list string) :=
  patch route_signature route_marker first_route_end second_route_end
        filtered_route.

Definition fix_orders_blocks : list string -> list (nat * nat) :=
  blocks route_signature route_marker first_route_end second_route_end
         filtered_route.

(** ** The script around the loop *)

(** Text is kept as the bytes of its UTF-8 encoding: decoding a file
    checks its bytes and keeps them, encoding is the identity.  The line
    feed and the carriage return are single bytes in UTF-8, so newline
    handling works on the bytes; the texts the loop looks for are ASCII,
    and ASCII bytes occur in well-formed UTF-8 only as themselves, so the
    substring tests see the same matches on the bytes as on the text. *)
Definition LF : ascii := ascii_of_nat 10.
Definition CR : ascii := ascii_of_nat 13.
Definition crlf : string := String CR (String LF EmptyString).

Definition byte_in (lo hi : nat) (c : ascii) : bool :=
  (lo <=? nat_of_ascii c) && (nat_of_ascii c <=? hi).

Definition continuation : ascii -> bool := byte_in 128 191.

(** The second byte allowed after the lead byte of a three-byte and of a
    four-byte sequence: no overlong form, no surrogate, nothing above
    U+10FFFF. *)
Definition second_of_3 (b0 b1 : ascii) : bool :=
  byte_in 224 224 b0 && byte_in 160 191 b1 ||
  byte_in 225 236 b0 && byte_in 128 191 b1 ||
  byte_in 237 237 b0 && byte_in 128 159 b1 ||
  byte_in 238 239 b0 && byte_in 128 191 b1.

Definition second_of_4 (b0 b1 : ascii) : bool :=
  byte_in 240 240 b0 && byte_in 144 191 b1 ||
  byte_in 241 243 b0 && byte_in 128 191 b1 ||
  byte_in 244 244 b0 && byte_in 128 143 b1.

(** What [encoding='utf-8'] accepts with the default strict error
    handling: well-formed UTF-8 and nothing else. *)
Fixpoint utf8_valid (s : string) : bool :=
  match s with
  | EmptyString => true
  | String b0 s1 =>
    if byte_in 0 127 b0 then utf8_valid s1 else
    match s1 with
    | EmptyString => false
    | String b1 s2 =>
      if byte_in 194 223 b0 then continuation b1 && utf8_valid s2 else
      match s2 with
      | EmptyString => false
      | String b2 s3 =>
        if byte_in 224 239 b0
        then second_of_3 b0 b1 && continuation b2 && utf8_valid s3 else
        match s3 with
        | EmptyString => false
        | String b3 s4 =>
          second_of_4 b0 b1 && continuation b2 && continuation b3 &&
          utf8_valid s4
        end
      end
    end
  end.

(** Reading in text mode with the default [newline=None]: [\r\n] and a
    lone [\r] both come out as [\n]. *)
Fixpoint universal_newlines (s : string) : string :=
  match s with
  | EmptyString => EmptyString
  | String c s' =>
    if Ascii.eqb c CR then
      match s' with
      | String c' s'' =>
        if Ascii.eqb c' LF then String LF (universal_newlines s'')
        else String LF (universal_newlines s')
      | EmptyString => String LF EmptyString
      end
    else String c (universal_newlines s')
  end.

(** The lines of a text, each with its line feed; the last one has none
    when the text does not end with one. *)
Fixpoint split_lines (s : string) : list string :=
  match s with
  | EmptyString => []
  | String c s' =>
    if Ascii.eqb c LF then String c EmptyString :: split_lines s'
    else match split_lines s' with
         | [] => [String c EmptyString]
         | line :: rest => String c line :: rest
         end
  end.

(** [f.readlines()] at line 6 on a file opened at line 5 with
    [encoding='utf-8']. *)
Definition readlines (bytes : string) : result (list string) :=
  if utf8_valid bytes then Done (split_lines (universal_newlines bytes))
  else Raised UnicodeDecodeError.

(** Writing in text mode with the default [newline=None]: every [\n]
    goes out as the line separator of the platform. *)
Fixpoint translate_newlines (linesep s : string) : string :=
  match s with
  | EmptyString => EmptyString
  | String c s' =>
    if Ascii.eqb c LF then linesep +:+ translate_newlines linesep s'
    else String c (translate_newlines linesep s')
  end.

Definition join (l : list string) : string := foldr String.append EmptyString l.

(** The bytes [f.writelines(new_lines)] sends to the file at line 70. *)
Definition written (linesep : string) (lines : list string) : string :=
  join (map (translate_newlines linesep) lines).

(** The file at [path]: its bytes and whether the system lets the script
    open it for reading and for writing. *)
Record file := File {
  data : string;
  may_read : bool;
  may_write : bool
}.

(** What the script can see and change: the file at [path], if there is
    one, and what has been printed. *)
Record world := World {
  target : option file;
  stdout : list string
}.

(** What the script runs on: [os.linesep], and how many bytes the device
    takes for the file once it has been emptied before a write fails
    ([None]: as many as needed). *)
Record platform := Platform {
  linesep : string;
  room : option nat
}.

(** Lines 4-72.  [open(path, 'r')] needs the file and the right to read
    it; [readlines] decodes it; the loop runs; [open(path, 'w')] needs the
    right to write and empties the file at once; [writelines] then sends
    the output, and when the device takes only part of it the file keeps
    that part and the write raises; [print] comes last. *)
Definition main (p : platform) (w : world) : result unit * world :=
  match target w with
  | None => (Raised FileNotFoundError, w)
  | Some f =>
    if negb (may_read f) then (Raised PermissionError, w) else
    match readlines (data f) with
    | Done lines =>
      match fix_orders lines with
      | Done new_lines =>
        if negb (may_write f) then (Raised PermissionError, w) else
        let emptied := File EmptyString (may_read f) (may_write f) in
        let bytes := written (linesep p) new_lines in
        let full r := File (data emptied +:+ substring 0 r bytes)
                           (may_read f) (may_write f) in
        let complete := File (data emptied +:+ bytes)
                             (may_read f) (may_write f) in
        match room p with
        | Some r =>
          if r <? String.length bytes
          then (Raised OSError, World (Some (full r)) (stdout w))
          else (Done tt,
                World (Some complete)
                      (stdout w ++ [ln "Orders route updated successfully."]))
        | None =>
          (Done tt,
           World (Some complete)
                 (stdout w ++ [ln "Orders route updated successfully."]))
        end
      | Raised e => (Raised e, w)
      | Diverged => (Diverged, w)
      end
    | Raised e => (Raised e, w)
    | Diverged => (Diverged, w)
    end
  end.

(** Whether a text has no carriage return. *)
Fixpoint no_cr (s : string) : bool :=
  match s with
  | EmptyString => true
  | String c s' => negb (Ascii.eqb c CR) && no_cr s'
  end.

(** The scenario of the specification: its input lines, and the loop with
    the scenario's anchor, terminator (for the first and for the later
    blocks alike) and template in place of the script's literals. *)
Definition scenario_lines : list string :=
  [ ln "X"; ln "// marker"; ln "sig("; ln "A"; ln "end";
    ln "// marker"; ln "sig("; ln "B"; ln "end"; ln "Y" ].

Definition scenario_patch : list string -> result (list string) :=
  patch (String.prefix "sig(") (String.eqb (ln "// marker"))
        (String.eqb (ln "end")) (String.eqb (ln "end"))
        [ln "T1"; ln "T2"].

(** ** Reading the loop: positions, blocks and runs *)

(** The element the subscript [i-1] reads at cursor [i]: the element
    before [l[i]], and for [i = 0] the last one. *)
Definition prev_line {A} (l : list A) (n : nat) : option A :=
  match n with
  | O => last l
  | S m => l !! m
  end.

(** Number of leading elements that fail [term]: the offset of the first
    one that satisfies it, or the length when none does. *)
Fixpoint first_sat (term : string -> bool) (l : list string) : nat :=
  match l with
  | [] => 0
  | x :: l' => if term x then 0 else S (first_sat term l')
  end.

Section Reading.

Variables (signature marker : string -> bool).
Variables (terminator_first terminator_rest : string -> bool).
Variable (template : list string).
Variable (lines : list string).

(** The anchor in the words of the specification: a signature line with
    the marker on the line immediately before it, so never at position
    [0].  [anchor_at_adjacent] compares it with the test of the code. *)
Definition adjacent_anchor (p : nat) : bool :=
  match p with
  | O => false
  | S m =>
    match lines !! m, lines !! p with
    | Some prev, Some line => signature line && marker prev
    | _, _ => false
    end
  end.

(** What the test of line 17 evaluates to at cursor [n]. *)
Definition anchor_at (n : nat) : bool :=
  match lines !! n, prev_line lines n with
  | Some line, Some prev => signature line && marker prev
  | _, _ => false
  end.

(** Where the inner loop started at [n] stops: the first position at or
    after [n] whose line satisfies [term], or [len(lines)]. *)
Definition find_from (term : string -> bool) (n : nat) : nat :=
  n + first_sat term (drop n lines).

(** The loop as a relation: [run s bs s'] when the outer loop entered in
    state [s] leaves in state [s'] after matching the blocks [bs]. *)
Inductive run : state -> list (nat * nat) -> state -> Prop :=
| run_stop s :
    length lines <= i s ->
    run s [] s
| run_copy n out found line bs s' :
    lines !! n = Some line ->
    anchor_at n = false ->
    run (State (n + 1) (out ++ [line]) found) bs s' ->
    run (State n out found) bs s'
| run_first n out bs s' :
    n < length lines ->
    anchor_at n = true ->
    run (State (find_from terminator_first n + 1) (out ++ template) true) bs s' ->
    run (State n out false) ((n, find_from terminator_first n + 1) :: bs) s'
| run_rest n out bs s' :
    n < length lines ->
    anchor_at n = true ->
    run (State (find_from terminator_rest n + 1) out true) bs s' ->
    run (State n out true) ((n, find_from terminator_rest n + 1) :: bs) s'.

(** Blocks in scan order, none starting before [from], each non-empty. *)
Fixpoint ordered (from : nat) (bs : list (nat * nat)) : Prop :=
  match bs with
  | [] => True
  | (p, e) :: bs' => from <= p /\ p < e /\ ordered e bs'
  end.

(** The lines at positions [from .. upto-1] that lie outside the blocks
    [bs]: what is left between and after them. *)
Fixpoint between (from : nat) (bs : list (nat * nat)) (upto : nat) : list string :=
  match bs with
  | [] => drop from (take upto lines)
  | (p, e) :: bs' => drop from (take p lines) ++ between e bs' upto
  end.

(** The lines before [upto] with the first block of [bs] replaced by the
    template and the later ones removed. *)
Definition spliced (bs : list (nat * nat)) (upto : nat) : list string :=
  match bs with
  | [] => take upto lines
  | (p, e) :: bs' => take p lines ++ template ++ between e bs' upto
  end.

(** The test that ends the block of ordinal [k + 1]. *)
Definition terminator_of (k : nat) : string -> bool :=
  match k with
  | O => terminator_first
  | S _ => terminator_rest
  end.

End Reading.

(** Number of input lines that fall inside the blocks [bs] of an input of
    [len] lines; a block left open ends with the input. *)
Fixpoint dropped (len : nat) (bs : list (nat * nat)) : nat :=
  match bs with
  | [] => 0
  | (p, e) :: bs' => (e `min` len - p) + dropped len bs'
  end.

(** ** Inputs used below *)

(** One route, closed by its [.toArray();] line. *)
Definition single_route : list string :=
  [ ln "import x";
    ln "// GET /api/orders - Get all orders";
    ln "router.get('/', async (req, res) => {";
    ln "  const orders = await db.collection('orders').find()";
    ln "    .toArray();";
    ln "  res.json(orders);";
    ln "});" ].

(** Two routes; the second one has its own comment line. *)
Definition two_routes : list string :=
  [ ln "import x";
    ln "// GET /api/orders - Get all orders";
    ln "router.get('/', async (req, res) => {";
    ln "  res.json([]);";
    ln "});";
    ln "  .toArray();";
    ln "// GET /api/orders - Get all orders (legacy)";
    ln "router.get('/', async (req, res) => {";
    ln "  res.json(await legacy());";
    ln "});";
    ln "export default router;" ].

(** Two routes where one line is both the terminator line of the first
    block and the marker line of the second. *)
Definition shared_line : list string :=
  [ ln "// Get all orders";
    ln "router.get('/', a)";
    ln "  .toArray(); // Get all orders";
    ln "router.get('/', b)";
    ln "});";
    ln "tail" ].

(** A route that is never closed: no line from the signature on contains
    [.toArray();] or [});]. *)
Definition open_route : list string :=
  [ ln "import x";
    ln "// GET /api/orders - Get all orders";
    ln "router.get('/', async (req, res) => {";
    ln "  res.json([])";
    ln "}";
    ln "export default router;" ].

(** What the script makes of [single_route]. *)
Definition patched_route : list string :=
  take 2 single_route ++ filtered_route ++ drop 5 single_route.

(** A file where no signature line follows a marker line. *)
Definition no_route : list string :=
  [ ln "// Get all orders";
    ln "import { Router } from 'express';";
    ln "router.get('/', listOrders)";
    ln "  .toArray();" ].



(** [no_route] as a file with the line endings of a platform whose line
    separator is [\r\n]. *)
Definition no_route_crlf : file :=
  File (translate_newlines crlf (join no_route)) true true.

(** The signature on the first line and the marker on the last one. *)
Definition wrapped : list string :=
  [ ln "router.get('/', listOrders)";
    ln "  .toArray();";
    ln "// Get all orders" ].

(** A file of one line that carries signature, terminator and marker. *)
Definition one_line : list string :=
  [ ln "router.get('/', listOrders).toArray(); // Get all orders" ].

(** ** Substring test *)

Lemma prefix_append (sub s : string) :
  String.prefix sub s = true <-> exists post, s = sub +:+ post.
Proof.
  revert s. induction sub as [|c sub IH]; intros [|c' s]; cbn.
  - split; [intros _; exists EmptyString; reflexivity|reflexivity].
  - split; [intros _; exists (String c' s); reflexivity|reflexivity].
  - split; [done|]. intros [post H]. discriminate H.
  - destruct (ascii_dec c c') as [->|Hne].
    + rewrite IH. split; intros [post H]; exists post.
      * by rewrite H.
      * by injection H.
    + split; [done|]. intros [post H]. injection H as -> _. done.
Qed.
(** [contains sub s] holds exactly when [s] is some text, then [sub], then
    some text: Python's [sub in s]. *)
Lemma contains_append (sub s : string) :
  contains sub s = true <-> exists pre post, s = pre +:+ sub +:+ post.
Proof.
  induction s as [|c s IH]; cbn [contains]; rewrite orb_true_iff.
  - split.
    + intros [H|H]; [|done]. apply prefix_append in H as [post H].
      by exists EmptyString, post.
    + intros ([|c pre] & post & H); [|discriminate H].
      left. apply prefix_append. by exists post.
  - split.
    + intros [H|H].
      * apply prefix_append in H as [post H]. by exists EmptyString, post.
      * apply IH in H as (pre & post & ->). by exists (String c pre), post.
    + intros ([|c' pre] & post & H).
      * left. apply prefix_append. by exists post.
      * right. apply IH. injection H as _ ->. by exists pre, post.
Qed.

(** ** Subscripts *)

Section Subscripts.

Context {A : Type}.
Implicit Types (l : list A) (n : nat).

Lemma getitem_lookup l n x :
  l !! n = Some x -> getitem l (Z.of_nat n) = Done x.
Proof.
  intros Hx. pose proof (lookup_lt_Some _ _ _ Hx) as Hn.
  unfold getitem.
  replace ((Z.of_nat n <? - Z.of_nat (length l))%Z) with false
    by (symmetry; apply Z.ltb_ge; lia).
  replace ((Z.of_nat (length l) <=? Z.of_nat n)%Z) with false
    by (symmetry; apply Z.leb_gt; lia).
  replace ((Z.of_nat n <? 0)%Z) with false
    by (symmetry; apply Z.ltb_ge; lia).
  cbn. rewrite Nat2Z.id, Hx. reflexivity.
Qed.

(** [l[i-1]] for [i >= 1] is the element before [l[i]]. *)
Lemma getitem_pred l n x :
  l !! n = Some x -> getitem l (Z.of_nat (S n) - 1)%Z = Done x.
Proof.
  intros Hx. replace (Z.of_nat (S n) - 1)%Z with (Z.of_nat n) by lia.
  by apply getitem_lookup.
Qed.

(** [l[0-1]] is [l[-1]], the last element. *)
Lemma getitem_wrap l x :
  last l = Some x -> getitem l (Z.of_nat 0 - 1)%Z = Done x.
Proof.
  intros Hx. rewrite last_lookup in Hx.
  pose proof (lookup_lt_Some _ _ _ Hx) as Hn.
  unfold getitem. change (Z.of_nat 0 - 1)%Z with (-1)%Z.
  replace ((-1 <? - Z.of_nat (length l))%Z) with false
    by (symmetry; apply Z.ltb_ge; lia).
  replace ((Z.of_nat (length l) <=? -1)%Z) with false
    by (symmetry; apply Z.leb_gt; lia).
  cbn.
  replace (Z.to_nat (-1 + Z.of_nat (length l))) with (pred (length l)) by lia.
  rewrite Hx. reflexivity.
Qed.

Lemma getitem_prev l n x :
  prev_line l n = Some x -> getitem l (Z.of_nat n - 1)%Z = Done x.
Proof.
  destruct n as [|m]; cbn [prev_line];
    [apply getitem_wrap | apply getitem_pred].
Qed.

Lemma prev_line_is_Some l n :
  n < length l -> is_Some (prev_line l n).
Proof.
  intros Hn. destruct n as [|m]; cbn [prev_line].
  - rewrite last_lookup. apply lookup_lt_is_Some. lia.
  - apply lookup_lt_is_Some. lia.
Qed.

End Subscripts.

(** ** The loop and its relational reading agree *)

Section Facts.

Variables (signature marker : string -> bool).
Variables (terminator_first terminator_rest : string -> bool).
Variable (template : list string).
Variable (lines : list string).

Abbreviation anchor_cond := (anchor_cond signature marker lines).
Abbreviation anchor_test := (anchor_test signature marker lines).
Abbreviation anchor_at := (anchor_at signature marker lines).
Abbreviation scan := (scan lines).
Abbreviation find_from := (find_from lines).
Abbreviation body :=
  (body signature marker terminator_first terminator_rest template lines).
Abbreviation loop :=
  (loop signature marker terminator_first terminator_rest template lines).
Abbreviation blocks_from :=
  (blocks_from signature marker terminator_first terminator_rest template lines).
Abbreviation run :=
  (run signature marker terminator_first terminator_rest template lines).
Abbreviation between := (between lines).
Abbreviation spliced := (spliced template lines).

Lemma anchor_cond_at n line :
  lines !! n = Some line -> anchor_cond line n = Done (anchor_at n).
Proof.
  intros Hl. pose proof (lookup_lt_Some _ _ _ Hl) as Hn.
  destruct (prev_line_is_Some lines n Hn) as [prev Hp].
  unfold anchor_cond, anchor_at. rewrite Hl, Hp.
  destruct (signature line); [|reflexivity].
  rewrite (getitem_prev _ _ _ Hp). reflexivity.
Qed.

Lemma anchor_test_at n :
  n < length lines -> anchor_test n = Done (anchor_at n).
Proof.
  intros Hn. destruct (lookup_lt_is_Some_2 lines n Hn) as [line Hl].
  unfold anchor_test. rewrite (getitem_lookup _ _ _ Hl). cbn.
  by apply anchor_cond_at.
Qed.

Lemma find_from_ge term n : n <= find_from term n.
Proof. unfold find_from. lia. Qed.

Lemma first_sat_le term (l : list string) : first_sat term l <= length l.
Proof. induction l as [|x l IH]; cbn; [lia|]. destruct (term x); lia. Qed.

Lemma find_from_le term n : n <= length lines -> find_from term n <= length lines.
Proof.
  intros Hn. unfold find_from.
  pose proof (first_sat_le term (drop n lines)) as H.
  rewrite length_drop in H. lia.
Qed.

Lemma find_from_hit term n line :
  lines !! n = Some line -> term line = true -> find_from term n = n.
Proof.
  intros Hl Ht. unfold find_from.
  rewrite (drop_S _ _ _ Hl). cbn. rewrite Ht. lia.
Qed.

Lemma find_from_miss term n line :
  lines !! n = Some line -> term line = false ->
  find_from term n = find_from term (S n).
Proof.
  intros Hl Ht. unfold find_from.
  rewrite (drop_S _ _ _ Hl). cbn. rewrite Ht. lia.
Qed.

Lemma find_from_end term n : length lines <= n -> find_from term n = n.
Proof.
  intros Hn. unfold find_from. rewrite drop_ge by lia. cbn. lia.
Qed.

Lemma scan_S term fuel n :
  scan term (S fuel) n =
  if n <? length lines then
    line ← getitem lines (Z.of_nat n);
    if negb (term line) then scan term fuel (n + 1) else Done n
  else Done n.
Proof. reflexivity. Qed.

(** The inner loop, given one more turn than lines left, stops at
    [find_from]. *)
Lemma scan_find term fuel n :
  length lines - n < fuel -> scan term fuel n = Done (find_from term n).
Proof.
  revert n. induction fuel as [|fuel IH]; intros n Hf; [lia|].
  rewrite scan_S.
  destruct (Nat.ltb_spec n (length lines)) as [Hn|Hn].
  - destruct (lookup_lt_is_Some_2 lines n Hn) as [line Hl].
    rewrite (getitem_lookup _ _ _ Hl). cbn.
    destruct (term line) eqn:Ht; cbn.
    + by rewrite (find_from_hit _ _ _ Hl Ht).
    + rewrite (find_from_miss _ _ _ Hl Ht).
      replace (n + 1) with (S n) by lia. apply IH. lia.
  - by rewrite find_from_end.
Qed.

Lemma first_sat_before term (l : list string) q x :
  q < first_sat term l -> l !! q = Some x -> term x = false.
Proof.
  revert q. induction l as [|y l IH]; intros q Hq Hx; cbn in *; [lia|].
  destruct (term y) eqn:Hy; [lia|].
  destruct q as [|q]; cbn in Hx; [congruence|]. apply (IH q); [lia|done].
Qed.

Lemma first_sat_there term (l : list string) x :
  l !! first_sat term l = Some x -> term x = true.
Proof.
  induction l as [|y l IH]; cbn; [done|].
  destruct (term y) eqn:Hy; cbn; [congruence|done].
Qed.

(** No line from [n] up to where the inner loop stops satisfies [term]. *)
Lemma find_from_before term n q line :
  n <= q -> q < find_from term n -> lines !! q = Some line -> term line = false.
Proof.
  unfold find_from. intros Hn Hq Hl.
  apply (first_sat_before term (drop n lines) (q - n)); [lia|].
  rewrite lookup_drop. by replace (n + (q - n)) with q by lia.
Qed.

(** The line where it stops, when there is one, satisfies [term]. *)
Lemma find_from_there term n line :
  lines !! find_from term n = Some line -> term line = true.
Proof.
  unfold find_from. intros Hl.
  apply (first_sat_there term (drop n lines)). by rewrite lookup_drop.
Qed.

Lemma find_from_first term n j line :
  n <= j -> lines !! j = Some line -> term line = true ->
  (forall q x, n <= q -> q < j -> lines !! q = Some x -> term x = false) ->
  find_from term n = j.
Proof.
  intros Hn Hl Ht Hbefore.
  pose proof (lookup_lt_Some _ _ _ Hl) as Hj.
  pose proof (find_from_ge term n) as Hge.
  destruct (Nat.lt_trichotomy (find_from term n) j) as [Hlt|[Heq|Hgt]];
    [|done|].
  - destruct (lookup_lt_is_Some_2 lines (find_from term n)) as [x Hx]; [lia|].
    pose proof (find_from_there _ _ _ Hx) as Htrue.
    rewrite (Hbefore _ _ Hge Hlt Hx) in Htrue. discriminate.
  - rewrite (find_from_before term n j line Hn Hgt Hl) in Ht. discriminate.
Qed.

Lemma find_from_none term n :
  n <= length lines ->
  (forall q x, n <= q -> lines !! q = Some x -> term x = false) ->
  find_from term n = length lines.
Proof.
  intros Hn Hnone. pose proof (find_from_le term n Hn) as Hle.
  pose proof (find_from_ge term n) as Hge.
  destruct (Nat.lt_ge_cases (find_from term n) (length lines)) as [Hlt|]; [|lia].
  destruct (lookup_lt_is_Some_2 lines _ Hlt) as [x Hx].
  pose proof (find_from_there _ _ _ Hx) as Htrue.
  rewrite (Hnone _ _ Hge Hx) in Htrue. discriminate.
Qed.

(** One turn of the outer loop, read off the positions. *)
Lemma body_next fuel n out found line :
  lines !! n = Some line ->
  length lines - n < fuel ->
  body fuel (State n out found) =
  Done (if anchor_at n then
          if found
          then State (find_from terminator_rest n + 1) out true
          else State (find_from terminator_first n + 1) (out ++ template) true
        else State (n + 1) (out ++ [line]) found).
Proof.
  intros Hl Hf. unfold body. cbn [i new_lines found_first_route].
  rewrite (getitem_lookup _ _ _ Hl). cbn [mbind result_bind].
  rewrite (anchor_cond_at _ _ Hl). cbn [mbind result_bind].
  destruct (anchor_at n); [|reflexivity].
  destruct found; cbn [negb]; rewrite scan_find by lia; reflexivity.
Qed.

Lemma loop_S fuel s :
  loop (S fuel) s =
  if i s <? length lines then s' ← body fuel s; loop fuel s' else Done s.
Proof. reflexivity. Qed.

Lemma blocks_from_S fuel s :
  blocks_from (S fuel) s =
  if i s <? length lines then
    match body fuel s, anchor_test (i s) with
    | Done s', Done hit =>
      (if hit then [(i s, i s')] else []) ++ blocks_from fuel s'
    | _, _ => []
    end
  else [].
Proof. reflexivity. Qed.

(** A run of the relation is what the loop computes, whatever number of
    turns it is allowed beyond [len(lines) + 2 - i]. *)
Lemma run_loop s bs s' :
  run s bs s' ->
  forall fuel, 0 < fuel -> length lines + 2 <= fuel + i s ->
  loop fuel s = Done s' /\ blocks_from fuel s = bs.
Proof.
  induction 1 as [s Hs|n out found line bs s' Hl Ha _ IH
                 |n out bs s' Hn Ha _ IH|n out bs s' Hn Ha _ IH];
    intros [|fuel] Hpos Hf; try lia; rewrite loop_S, blocks_from_S;
    cbn [i] in *.
  - destruct (Nat.ltb_spec (i s) (length lines)); [lia|done].
  - pose proof (lookup_lt_Some _ _ _ Hl) as Hn.
    destruct (Nat.ltb_spec n (length lines)); [|lia].
    rewrite (body_next _ _ _ _ _ Hl) by lia.
    rewrite anchor_test_at by lia. rewrite Ha. cbn [mbind result_bind app].
    apply IH; lia.
  - destruct (lookup_lt_is_Some_2 lines n Hn) as [line Hl].
    destruct (Nat.ltb_spec n (length lines)); [|lia].
    rewrite (body_next _ _ _ _ _ Hl) by lia.
    rewrite anchor_test_at by lia. rewrite Ha. cbn [mbind result_bind i].
    pose proof (find_from_ge terminator_first n).
    destruct (IH fuel) as [-> ->]; [lia|lia|done].
  - destruct (lookup_lt_is_Some_2 lines n Hn) as [line Hl].
    destruct (Nat.ltb_spec n (length lines)); [|lia].
    rewrite (body_next _ _ _ _ _ Hl) by lia.
    rewrite anchor_test_at by lia. rewrite Ha. cbn [mbind result_bind i].
    pose proof (find_from_ge terminator_rest n).
    destruct (IH fuel) as [-> ->]; [lia|lia|done].
Qed.

(** Every state starts a run: the cursor strictly grows. *)
Lemma run_total s : exists bs s', run s bs s'.
Proof.
  remember (length lines - i s) as k eqn:Hk.
  assert (Hle : length lines - i s <= k) by lia. clear Hk.
  revert s Hle. induction k as [|k IH]; intros [n out found] Hle;
    cbn [i] in Hle.
  - exists [], (State n out found). apply run_stop. cbn. lia.
  - destruct (Nat.lt_ge_cases n (length lines)) as [Hn|Hn].
    2:{ exists [], (State n out found). apply run_stop. cbn. lia. }
    destruct (lookup_lt_is_Some_2 lines n Hn) as [line Hl].
    destruct (anchor_at n) eqn:Ha.
    + destruct found.
      * pose proof (find_from_ge terminator_rest n).
        destruct (IH (State (find_from terminator_rest n + 1) out true))
          as (bs & s' & Hr); [cbn; lia|].
        eexists _, s'. by apply run_rest.
      * pose proof (find_from_ge terminator_first n).
        destruct (IH (State (find_from terminator_first n + 1)
                            (out ++ template) true))
          as (bs & s' & Hr); [cbn; lia|].
        eexists _, s'. by apply run_first.
    + destruct (IH (State (n + 1) (out ++ [line]) found))
        as (bs & s' & Hr); [cbn; lia|].
      exists bs, s'. by eapply run_copy.
Qed.

(** A run entered at or past the end stops at once. *)
Lemma run_at_end s bs s' :
  run s bs s' -> length lines <= i s -> bs = [] /\ s' = s.
Proof.
  destruct 1 as [s Hs|n out found line bs s' Hl _ _|n out bs s' Hn _ _
                |n out bs s' Hn _ _]; cbn [i]; intros Hend; [done|..]; try lia.
  pose proof (lookup_lt_Some _ _ _ Hl). lia.
Qed.

Lemma run_ordered s bs s' : run s bs s' -> ordered (i s) bs.
Proof.
  induction 1 as [s Hs|n out found line bs s' Hl Ha _ IH
                 |n out bs s' Hn Ha _ IH|n out bs s' Hn Ha _ IH];
    cbn [i ordered] in *; [done|..].
  - destruct bs as [|[p e] bs]; [done|]. cbn [ordered] in *.
    destruct IH as (? & ? & ?). split_and!; [lia|lia|done].
  - pose proof (find_from_ge terminator_first n). split_and!; [lia|lia|done].
  - pose proof (find_from_ge terminator_rest n). split_and!; [lia|lia|done].
Qed.

(** Copying line [n] extends the lines kept before the next block. *)
Lemma between_copy n line bs upto :
  lines !! n = Some line -> n < upto -> ordered (n + 1) bs ->
  between n bs upto = line :: between (n + 1) bs upto.
Proof.
  intros Hl Hup Hord.
  assert (Hslice : forall m, n < m ->
            drop n (take m lines) = line :: drop (n + 1) (take m lines)).
  { intros m Hm. replace (n + 1) with (S n) by lia.
    apply drop_S. rewrite lookup_take_lt by lia. done. }
  destruct bs as [|[p e] bs]; cbn [between ordered] in *.
  - by apply Hslice.
  - rewrite (Hslice p) by lia. reflexivity.
Qed.

Lemma slice_empty n : drop n (take n lines) = [].
Proof. apply drop_ge. rewrite length_take. lia. Qed.

(** After the first block, a run only copies the lines outside blocks. *)
Lemma run_found_output s bs s' :
  run s bs s' -> found_first_route s = true ->
  new_lines s' = new_lines s ++ between (i s) bs (length lines).
Proof.
  induction 1 as [s Hs|n out found line bs s' Hl Ha Hrun IH
                 |n out bs s' Hn Ha Hrun IH|n out bs s' Hn Ha Hrun IH];
    cbn [i new_lines found_first_route between] in *; intros Hfound.
  - rewrite take_ge, drop_ge by lia. by rewrite app_nil_r.
  - rewrite IH by done. rewrite <- app_assoc. cbn [app]. f_equal.
    symmetry. apply between_copy; [done| |].
    + by apply lookup_lt_Some in Hl.
    + apply (run_ordered _ _ _ Hrun).
  - discriminate.
  - rewrite IH by done. by rewrite slice_empty.
Qed.

(** Before it, a run copies lines up to the first block and puts the
    template in its place. *)
Lemma run_output s bs s' :
  run s bs s' -> found_first_route s = false ->
  new_lines s' =
  new_lines s ++
  match bs with
  | [] => drop (i s) lines
  | (p, e) :: bs' =>
    drop (i s) (take p lines) ++ template ++ between e bs' (length lines)
  end.
Proof.
  induction 1 as [s Hs|n out found line bs s' Hl Ha Hrun IH
                 |n out bs s' Hn Ha Hrun IH|n out bs s' Hn Ha Hrun IH];
    cbn [i new_lines found_first_route] in *; intros Hfound.
  - rewrite drop_ge by lia. by rewrite app_nil_r.
  - rewrite IH by done. rewrite <- app_assoc. cbn [app]. f_equal.
    pose proof (run_ordered _ _ _ Hrun) as Hord. cbn [i] in Hord.
    replace (n + 1) with (S n) in * by lia.
    destruct bs as [|[p e] bs]; cbn [ordered] in Hord.
    + symmetry. by apply drop_S.
    + rewrite (drop_S (take p lines) line n); [done|].
      rewrite lookup_take_lt by lia. done.
  - rewrite (run_found_output _ _ _ Hrun) by done. cbn [i new_lines].
    rewrite slice_empty. by rewrite <- app_assoc.
  - discriminate.
Qed.

(** The blocks of a run: each starts where the anchor test holds and ends
    where the inner loop for its ordinal stops. *)
Lemma run_block s bs s' k p e :
  run s bs s' -> bs !! k = Some (p, e) ->
  anchor_at p = true /\ p < length lines /\
  e = find_from (if found_first_route s then terminator_rest
                 else terminator_of terminator_first terminator_rest k) p + 1.
Proof.
  intros Hrun. revert k.
  induction Hrun as [s Hs|n out found line bs s' Hl Ha Hrun IH
                    |n out bs s' Hn Ha Hrun IH|n out bs s' Hn Ha Hrun IH];
    cbn [i new_lines found_first_route] in *; intros k Hk.
  - done.
  - by apply IH.
  - destruct k as [|k]; cbn in Hk.
    + injection Hk as <- <-. done.
    + apply (IH k Hk).
  - destruct k as [|k]; cbn in Hk.
    + injection Hk as <- <-. done.
    + apply (IH k Hk).
Qed.

(** A block that runs past the end is the last one. *)
Lemma run_open_last s bs s' k p e :
  run s bs s' -> bs !! k = Some (p, e) -> length lines < e ->
  length bs = S k.
Proof.
  intros Hrun. revert k.
  induction Hrun as [s Hs|n out found line bs s' Hl Ha Hrun IH
                    |n out bs s' Hn Ha Hrun IH|n out bs s' Hn Ha Hrun IH];
    cbn [i new_lines found_first_route] in *; intros k Hk Hopen.
  - done.
  - by apply IH.
  - destruct k as [|k]; cbn in Hk.
    + injection Hk as <- <-.
      destruct (run_at_end _ _ _ Hrun) as [-> _]; [cbn; lia|done].
    + cbn. f_equal. by apply IH.
  - destruct k as [|k]; cbn in Hk.
    + injection Hk as <- <-.
      destruct (run_at_end _ _ _ Hrun) as [-> _]; [cbn; lia|done].
    + cbn. f_equal. by apply IH.
Qed.

(** Lines the test rejects are copied one by one. *)
Lemma run_copy_range d a out found bs s' :
  a + d <= length lines ->
  (forall q, a <= q -> q < a + d -> anchor_at q = false) ->
  run (State (a + d) (out ++ drop a (take (a + d) lines)) found) bs s' ->
  run (State a out found) bs s'.
Proof.
  revert a out. induction d as [|d IH]; intros a out Hle Hno Hrun.
  - rewrite Nat.add_0_r, slice_empty, app_nil_r in Hrun. done.
  - destruct (lookup_lt_is_Some_2 lines a) as [line Hl]; [lia|].
    apply (run_copy _ _ _ _ _ _ a out found line bs s' Hl); [apply Hno; lia|].
    apply IH; [lia|intros q ? ?; apply Hno; lia|].
    replace (a + 1 + d) with (a + S d) by lia.
    rewrite <- app_assoc. cbn [app].
    rewrite (drop_S (take (a + S d) lines) line a) in Hrun;
      [by replace (a + 1) with (S a) by lia|].
    rewrite lookup_take_lt by lia. done.
Qed.

(** The lines kept after a block come, in order, from after that block. *)
Lemma between_sublist from bs :
  ordered from bs -> between from bs (length lines) `sublist_of` drop from lines.
Proof.
  revert from. induction bs as [|[p e] bs IH]; intros from Hord;
    cbn [between ordered] in *.
  - by rewrite take_ge.
  - destruct Hord as (Hfrom & Hpe & Hord).
    rewrite <- (drop_take_drop lines from p) by done.
    apply sublist_app; [done|].
    etrans; [apply (IH e Hord)|].
    replace e with (p + (e - p)) by lia. rewrite <- drop_drop.
    apply sublist_drop.
Qed.

(** A block left open swallows the rest: what is kept is what was kept
    before its anchor. *)
Lemma between_open from pre p e :
  ordered from (pre ++ [(p, e)]) -> length lines < e ->
  between from (pre ++ [(p, e)]) (length lines) = between from pre p.
Proof.
  revert from. induction pre as [|[p0 e0] pre IH]; intros from Hord Hopen;
    cbn [between ordered app] in *.
  - rewrite (drop_ge (take (length lines) lines) e)
      by (rewrite length_take; lia).
    by rewrite app_nil_r.
  - destruct Hord as (_ & _ & Hord). by rewrite (IH e0 Hord Hopen).
Qed.

(** What the loop returns when a run from the initial state is known. *)
Lemma patch_run bs s' k :
  run (init) bs s' ->
  patch_fuel signature marker terminator_first terminator_rest template
             (length lines + 2 + k) lines = Done (new_lines s') /\
  blocks_from (length lines + 2 + k) init = bs.
Proof.
  intros Hrun. unfold patch_fuel.
  destruct (run_loop _ _ _ Hrun (length lines + 2 + k)) as [-> ->];
    [lia|cbn; lia|done].
Qed.

(** The output is the input with the first matched block replaced by the
    template and the later matched blocks removed. *)
Lemma patch_spliced :
  patch signature marker terminator_first terminator_rest template lines =
  Done (spliced
          (blocks signature marker terminator_first terminator_rest template
                  lines)
          (length lines)).
Proof.
  destruct (run_total init) as (bs & s' & Hrun).
  destruct (patch_run bs s' 0 Hrun) as [Hp Hb].
  rewrite Nat.add_0_r in Hp, Hb. unfold patch, blocks. rewrite Hp, Hb.
  rewrite (run_output _ _ _ Hrun) by done. cbn [init new_lines i app].
  unfold spliced. destruct bs as [|[p e] bs]; rewrite ?drop_0; [|done].
  by rewrite take_ge.
Qed.

Lemma blocks_run :
  exists s',
    run init
        (blocks signature marker terminator_first terminator_rest template lines)
        s'.
Proof.
  destruct (run_total init) as (bs & s' & Hrun). exists s'.
  destruct (patch_run bs s' 0 Hrun) as [_ Hb].
  rewrite Nat.add_0_r in Hb. unfold blocks. by rewrite Hb.
Qed.

(** Without the wrap-around at cursor [0], every block starts at a
    position [>= 1]. *)
Lemma blocks_ordered_from_1 :
  anchor_test 0 = Done false ->
  ordered 1
    (blocks signature marker terminator_first terminator_rest template lines).
Proof.
  intros H0. destruct blocks_run as [s' Hrun].
  pose proof (run_ordered _ _ _ Hrun) as Hord. cbn [init i] in Hord.
  destruct (blocks _ _ _ _ _ _) as [|[p e] bs] eqn:Hb; [done|].
  cbn [ordered] in *. destruct Hord as (_ & Hpe & Hord).
  split_and!; [|done|done].
  destruct (run_block _ _ _ 0 p e Hrun) as (Ha & Hp & _); [done|].
  destruct p as [|p]; [|lia].
  rewrite anchor_test_at in H0 by done. congruence.
Qed.

End Facts.

(** ** Properties of the patcher, for any anchor, terminators and template *)

Section Properties.

Variables (signature marker : string -> bool).
Variables (terminator_first terminator_rest : string -> bool).
Variable (template : list string).

Abbreviation anchor_test := (anchor_test signature marker).
Abbreviation anchor_at := (anchor_at signature marker).
Abbreviation run :=
  (run signature marker terminator_first terminator_rest template).
Abbreviation patch_fuel :=
  (patch_fuel signature marker terminator_first terminator_rest template).
Abbreviation patch :=
  (patch signature marker terminator_first terminator_rest template).
Abbreviation blocks :=
  (blocks signature marker terminator_first terminator_rest template).
Abbreviation spliced := (spliced template).
Abbreviation terminator_of := (terminator_of terminator_first terminator_rest).

(** X1: when the test of line 17 holds at no cursor position, the output
    is the input. *)
Lemma patch_identity (lines : list string) :
  (forall q, q < length lines -> anchor_test lines q = Done false) ->
  patch lines = Done lines.
Proof.
  intros Hno.
  assert (Hrun : run lines (init) [] (State (length lines) lines false)).
  { apply (run_copy_range _ _ _ _ _ _ (length lines) 0); [lia| |].
    - intros q _ Hq. specialize (Hno q Hq).
      rewrite anchor_test_at in Hno by lia. congruence.
    - cbn [Nat.add app]. rewrite drop_0, take_ge by done.
      apply run_stop. cbn. lia. }
  destruct (patch_run _ _ _ _ _ _ _ _ 0 Hrun) as [Hp _].
  rewrite Nat.add_0_r in Hp. exact Hp.
Qed.

(** C8: the scan terminates and its result does not depend on the run:
    every input has one output, which the loop returns for any
    allowance of at least [len(lines) + 2] turns. *)
Theorem patch_total_deterministic (lines : list string) :
  exists out, forall k, patch_fuel (length lines + 2 + k) lines = Done out.
Proof.
  destruct (run_total signature marker terminator_first terminator_rest
                      template lines init) as (bs & s' & Hrun).
  exists (new_lines s'). intros k.
  by destruct (patch_run _ _ _ _ _ _ _ _ k Hrun) as [Hp _].
Qed.

(** C10: every output line is an input line or a template line; the input
    lines kept form a subsequence of the input (original order, distinct
    positions), and the template occurs as at most one contiguous run. *)
Theorem patch_output_shape (lines : list string) :
  exists pre post,
    pre ++ post `sublist_of` lines /\
    (patch lines = Done (pre ++ post) \/
     patch lines = Done (pre ++ template ++ post)).
Proof.
  rewrite patch_spliced.
  destruct (blocks_run signature marker terminator_first terminator_rest
                       template lines) as [s' Hrun].
  pose proof (run_ordered _ _ _ _ _ _ _ _ _ Hrun) as Hord. cbn [init i] in Hord.
  unfold spliced.
  destruct (blocks lines) as [|[p e] bs]; cbn [ordered] in *.
  - exists lines, []. rewrite app_nil_r, take_ge by done. by split; [|left].
  - destruct Hord as (_ & Hpe & Hord).
    exists (take p lines), (between lines e bs (length lines)).
    split; [|by right].
    assert (Hsub : take p lines ++ between lines e bs (length lines)
                   `sublist_of` take p lines ++ drop p lines).
    { apply sublist_app; [done|].
      etrans; [by apply between_sublist|].
      replace e with (p + (e - p)) by lia. rewrite <- drop_drop.
      apply sublist_drop. }
    by rewrite take_drop in Hsub.
Qed.

Lemma anchor_at_adjacent (lines : list string) p :
  0 < p -> anchor_at lines p = adjacent_anchor signature marker lines p.
Proof.
  intros Hp. destruct p as [|m]; [lia|].
  unfold anchor_at, adjacent_anchor. cbn [prev_line].
  destruct (lines !! S m), (lines !! m); reflexivity.
Qed.

Lemma ordered_start (lines : list string) from bs k p e :
  ordered from bs -> bs !! k = Some (p, e) -> from <= p.
Proof.
  revert from k. induction bs as [|[p0 e0] bs IH]; intros from k Hord Hk;
    [done|]. cbn [ordered] in Hord. destruct Hord as (? & ? & Hord).
  destruct k as [|k]; cbn in Hk.
  - injection Hk as <- <-. done.
  - specialize (IH e0 k Hord Hk). lia.
Qed.

(** C2 (amended): when the anchor test holds at exactly one cursor
    position [p >= 1] and the first line at or after [p] that satisfies
    the first terminator is line [j], the output is the lines before [p]
    (the marker line [p-1] included), then the template, then the lines
    after [j]. *)
Theorem single_match_replacement (lines : list string) (p j : nat)
    (last_line : string) :
  0 < p ->
  anchor_test lines p = Done true ->
  (forall q, q < length lines -> q <> p -> anchor_test lines q = Done false) ->
  p <= j -> lines !! j = Some last_line -> terminator_first last_line = true ->
  (forall q x, p <= q -> q < j -> lines !! q = Some x ->
               terminator_first x = false) ->
  patch lines = Done (take p lines ++ template ++ drop (j + 1) lines).
Proof.
  intros Hpos Hp Hothers Hpj Hj Hlast Hbefore.
  pose proof (lookup_lt_Some _ _ _ Hj) as Hjlen.
  assert (Hat : anchor_at lines p = true).
  { rewrite anchor_test_at in Hp by lia. congruence. }
  assert (Hno : forall q, q < length lines -> q <> p ->
                          anchor_at lines q = false).
  { intros q Hq Hne. specialize (Hothers q Hq Hne).
    rewrite anchor_test_at in Hothers by lia. congruence. }
  pose proof (find_from_first lines terminator_first p j last_line
                Hpj Hj Hlast Hbefore) as Hfind.
  assert (Hrun : run lines init [(p, j + 1)]
                   (State (length lines)
                          (take p lines ++ template ++ drop (j + 1) lines)
                          true)).
  { apply (run_copy_range _ _ _ _ _ _ p 0); [lia| |].
    { intros q _ Hq. apply Hno; lia. }
    cbn [Nat.add app]. rewrite drop_0. rewrite <- Hfind.
    apply run_first; [lia|done|]. rewrite Hfind.
    apply (run_copy_range _ _ _ _ _ _ (length lines - (j + 1)) (j + 1));
      [lia| |].
    { intros q ? ?. apply Hno; lia. }
    replace (j + 1 + (length lines - (j + 1))) with (length lines) by lia.
    rewrite (take_ge lines (length lines)) by lia. rewrite <- app_assoc.
    apply run_stop. cbn. lia. }
  destruct (patch_run _ _ _ _ _ _ _ _ 0 Hrun) as [Hpatch _].
  rewrite Nat.add_0_r in Hpatch. exact Hpatch.
Qed.

Lemma ordered_lookup from (bs : list (nat * nat)) k p e :
  ordered from bs -> bs !! k = Some (p, e) ->
  from <= p /\ p < e /\ ordered e (drop (S k) bs).
Proof.
  revert from k. induction bs as [|[p0 e0] bs IH]; intros from k Hord Hk;
    [done|]. cbn [ordered] in Hord. destruct Hord as (? & ? & Hord).
  destruct k as [|k]; cbn in Hk.
  - injection Hk as <- <-. done.
  - destruct (IH e0 k Hord Hk) as (? & ? & ?). split_and!; [lia|done|done].
Qed.

Lemma ordered_pairwise from (bs : list (nat * nat)) k1 k2 p1 e1 p2 e2 :
  ordered from bs -> k1 < k2 ->
  bs !! k1 = Some (p1, e1) -> bs !! k2 = Some (p2, e2) ->
  p1 < e1 /\ e1 <= p2 /\ p2 < e2.
Proof.
  intros Hord Hk H1 H2.
  destruct (ordered_lookup _ _ _ _ _ Hord H1) as (_ & Hpe & Hrest).
  assert (Hk2 : drop (S k1) bs !! (k2 - S k1) = Some (p2, e2)).
  { rewrite lookup_drop. by replace (S k1 + (k2 - S k1)) with k2 by lia. }
  destruct (ordered_lookup _ _ _ _ _ Hrest Hk2) as (? & ? & _).
  done.
Qed.

(** A line at or after [from] that lies in none of the blocks is among the
    lines kept. *)
Lemma between_keeps (lines : list string) from bs q m :
  lines !! q = Some m -> from <= q ->
  (forall j p e, bs !! j = Some (p, e) -> q < p \/ e <= q) ->
  m ∈ between lines from bs (length lines).
Proof.
  intros Hq. pose proof (lookup_lt_Some _ _ _ Hq) as Hlen.
  revert from. induction bs as [|[p e] bs IH]; intros from Hfrom Hout;
    cbn [between].
  - apply list_elem_of_lookup. exists (q - from).
    rewrite lookup_drop, lookup_take_lt by lia.
    by replace (from + (q - from)) with q by lia.
  - apply elem_of_app. destruct (Hout 0 p e) as [Hlt|Hge]; [done| |].
    + left. apply list_elem_of_lookup. exists (q - from).
      rewrite lookup_drop, lookup_take_lt by lia.
      by replace (from + (q - from)) with q by lia.
    + right. apply IH; [done|]. intros j p' e' Hj. by apply (Hout (S j)).
Qed.

(** C3 (amended): with two or more matched blocks, none starting at
    cursor [0] through the wrap-around, the blocks are disjoint and in
    scan order, each starts at a signature line with the marker on the
    line before, and the output is the lines before the first block, the
    template, and the lines after the first block that lie outside the
    later blocks, in input order.  A block runs from its signature line to
    its terminator line: the marker line before a later block's signature
    line stays in the output when it comes after the preceding block; when
    it is the terminator line of the preceding block it belongs to that
    block and goes with it. *)
Theorem multi_match_drop_after_first (lines : list string) (p1 e1 : nat)
    (rest : list (nat * nat)) :
  anchor_test lines 0 = Done false ->
  blocks lines = (p1, e1) :: rest -> rest <> [] ->
  Forall (fun b => b.2 <= length lines) (blocks lines) ->
  ordered 1 (blocks lines) /\
  Forall (fun b => adjacent_anchor signature marker lines b.1 = true)
         (blocks lines) /\
  patch lines =
  Done (take p1 lines ++ template ++ between lines e1 rest (length lines)) /\
  (forall k p' e' p e,
     blocks lines !! k = Some (p', e') ->
     blocks lines !! S k = Some (p, e) ->
     e' < p ->
     exists m out,
       lines !! (p - 1) = Some m /\ patch lines = Done out /\ m ∈ out).
Proof.
  intros H0 Hb _ _.
  pose proof (blocks_ordered_from_1 signature marker terminator_first
                terminator_rest template lines H0) as Hord.
  destruct (blocks_run signature marker terminator_first terminator_rest
                       template lines) as [s' Hrun].
  assert (Hout : patch lines =
                 Done (take p1 lines ++ template ++
                       between lines e1 rest (length lines))).
  { rewrite patch_spliced, Hb. reflexivity. }
  split_and!; [done| |done|].
  - apply Forall_lookup. intros k [p e] Hk. cbn [fst].
    destruct (run_block _ _ _ _ _ _ _ _ _ k p e Hrun Hk) as (Ha & _ & _).
    pose proof (ordered_start lines _ _ _ _ _ Hord Hk).
    rewrite <- anchor_at_adjacent by lia. done.
  - intros k p' e' p e Hk HSk Hgap.
    destruct (run_block _ _ _ _ _ _ _ _ _ (S k) p e Hrun HSk) as (_ & Hp & _).
    destruct (lookup_lt_is_Some_2 lines (p - 1)) as [m Hm]; [lia|].
    exists m, (take p1 lines ++ template ++
               between lines e1 rest (length lines)).
    split_and!; [done|done|].
    apply elem_of_app. right. apply elem_of_app. right.
    assert (He1 : e1 <= e').
    { destruct k as [|k].
      - rewrite Hb in Hk. cbn in Hk. by injection Hk as _ <-.
      - destruct (ordered_pairwise _ _ 0 (S k) p1 e1 p' e' Hord) as (_ & ? & ?);
          [lia|by rewrite Hb|done|lia]. }
    apply (between_keeps lines e1 rest (p - 1) m); [done|lia|].
    intros j pj ej Hj.
    assert (Hj' : blocks lines !! S j = Some (pj, ej)) by by rewrite Hb.
    destruct (Nat.lt_trichotomy (S j) k) as [Hlt|[Heq|Hgt]].
    + right.
      destruct (ordered_pairwise _ _ (S j) k pj ej p' e' Hord) as (_ & ? & ?);
        [lia|done|done|lia].
    + right. rewrite Heq, Hk in Hj'. injection Hj' as <- <-. lia.
    + left. destruct (Nat.eq_dec j k) as [->|Hne].
      * rewrite HSk in Hj'. injection Hj' as <- <-. lia.
      * destruct (ordered_pairwise _ _ (S k) (S j) p e pj ej Hord)
          as (? & ? & _); [lia|done|done|lia].
Qed.

(** C1 (amended): the loop has no failure for a block left open.  When
    the block of ordinal [k+1] starts at [p] and no line at or after [p]
    satisfies its terminator, the cursor ends one past the end of the
    input, the block is the last one, and the output is what the loop had
    produced for the lines before [p], followed by the template when the
    block is the first one: the lines from [p] on are dropped. *)
Theorem unresolved_block_consumes_rest (lines : list string) (k p e : nat) :
  blocks lines !! k = Some (p, e) ->
  (forall q x, p <= q -> lines !! q = Some x -> terminator_of k x = false) ->
  e = length lines + 1 /\
  length (blocks lines) = S k /\
  patch lines =
  Done (spliced lines (take k (blocks lines)) p ++
        match k with O => template | S _ => [] end).
Proof.
  intros Hk Hnone.
  destruct (blocks_run signature marker terminator_first terminator_rest
                       template lines) as [s' Hrun].
  destruct (run_block _ _ _ _ _ _ _ _ _ k p e Hrun Hk) as (_ & Hp & He).
  cbn [init found_first_route] in He.
  rewrite (find_from_none lines _ p) in He by (done || lia).
  assert (Hlen : length (blocks lines) = S k).
  { apply (run_open_last _ _ _ _ _ _ _ _ _ k p e Hrun Hk). lia. }
  split_and!; [done|done|].
  rewrite patch_spliced.
  pose proof (run_ordered _ _ _ _ _ _ _ _ _ Hrun) as Hord. cbn [init i] in Hord.
  assert (Hsplit : blocks lines = take k (blocks lines) ++ [(p, e)]).
  { rewrite <- (take_S_r _ _ _ Hk). by rewrite take_ge by lia. }
  assert (Hpre : length (take k (blocks lines)) = k).
  { rewrite length_take. lia. }
  revert Hsplit Hpre Hord.
  generalize (take k (blocks lines)) as pre. generalize (blocks lines) as bs.
  intros bs pre -> Hpre Hord. unfold spliced.
  destruct pre as [|[p1 e1] mid]; cbn [length] in Hpre; subst k;
    cbn [app between ordered] in *.
  - rewrite (drop_ge (take (length lines) lines) e)
      by (rewrite length_take; lia).
    by rewrite app_nil_r.
  - destruct Hord as (_ & _ & Hord).
    rewrite (between_open lines e1 mid p e Hord) by lia.
    by rewrite app_nil_r.
Qed.

(** C6 (amended): a matched block starts where the test of line 17 holds
    and its last line is the first line at or after the anchor that
    satisfies the terminator of its ordinal: the first terminator for the
    first block, the second terminator for every later block.  When no
    such line exists the block runs to the end of the input. *)
Theorem block_end_by_ordinal (lines : list string) (k p e : nat) :
  blocks lines !! k = Some (p, e) ->
  anchor_test lines p = Done true /\
  p < e /\ e <= length lines + 1 /\
  (forall q x, p <= q -> q + 1 < e -> lines !! q = Some x ->
               terminator_of k x = false) /\
  (forall x, lines !! (e - 1) = Some x -> terminator_of k x = true).
Proof.
  intros Hk.
  destruct (blocks_run signature marker terminator_first terminator_rest
                       template lines) as [s' Hrun].
  destruct (run_block _ _ _ _ _ _ _ _ _ k p e Hrun Hk) as (Ha & Hp & He).
  cbn [init found_first_route] in He.
  pose proof (find_from_ge lines (terminator_of k) p).
  pose proof (find_from_le lines (terminator_of k) p).
  split_and!; [|lia|lia| |].
  - rewrite anchor_test_at by done. by rewrite Ha.
  - intros q x Hq Hqe Hx.
    apply (find_from_before lines (terminator_of k) p q x); [done|lia|done].
  - intros x Hx. apply (find_from_there lines (terminator_of k) p).
    by replace (find_from lines (terminator_of k) p) with (e - 1) by lia.
Qed.

(** A block that starts at a cursor [p >= 1] starts at an anchor in the
    words of the specification; only a block at cursor [0] can differ. *)
Lemma block_start_adjacent (lines : list string) (k p e : nat) :
  blocks lines !! k = Some (p, e) -> 0 < p ->
  adjacent_anchor signature marker lines p = true.
Proof.
  intros Hk Hp.
  destruct (blocks_run signature marker terminator_first terminator_rest
                       template lines) as [s' Hrun].
  destruct (run_block _ _ _ _ _ _ _ _ _ k p e Hrun Hk) as (Ha & _ & _).
  by rewrite <- anchor_at_adjacent.
Qed.

End Properties.

(** ** The script on concrete files *)

Abbreviation script_anchor_test := (anchor_test route_signature route_marker).
Abbreviation script_adjacent := (adjacent_anchor route_signature route_marker).

(** C4 (amended): on the scenario the result keeps both marker lines; the
    second block runs from its signature line to its terminator. *)
Theorem scenario_output :
  scenario_patch scenario_lines =
  Done [ ln "X"; ln "// marker"; ln "T1"; ln "T2"; ln "// marker"; ln "Y" ].
Proof. vm_compute. reflexivity. Qed.

(** Against C4 as stated: the result is not the list the scenario
    expects. *)
Lemma scenario_output_differs :
  scenario_patch scenario_lines <>
  Done [ ln "X"; ln "// marker"; ln "T1"; ln "T2"; ln "Y" ].
Proof. vm_compute. discriminate. Qed.

(** C5: with the signature on the first line and the marker on the last
    one, no line has the marker on the line before it, yet the test of
    line 17 holds at cursor [0] (where [lines[i-1]] is the last line) and
    the first block starts there. *)
Theorem wrapped_block_at_cursor_0 :
  (forall p, script_adjacent wrapped p = false) /\
  script_anchor_test wrapped 0 = Done true /\
  fix_orders_blocks wrapped = [(0, 2)] /\
  fix_orders wrapped = Done (filtered_route ++ [ln "// Get all orders"]).
Proof.
  split_and!; try (vm_compute; reflexivity).
  intros p. do 4 (destruct p as [|p]; [vm_compute; reflexivity|]).
  reflexivity.
Qed.

(** C7: a file of one line has no pair of adjacent lines, hence no anchor,
    yet the loop replaces it by the template: at cursor [0] the subscript
    [i-1] reads the line itself. *)
Theorem one_line_replaced :
  (forall p, script_adjacent one_line p = false) /\
  fix_orders one_line = Done filtered_route /\
  filtered_route <> one_line.
Proof.
  split_and!; [|vm_compute; reflexivity|vm_compute; discriminate].
  intros p. do 2 (destruct p as [|p]; [vm_compute; reflexivity|]).
  reflexivity.
Qed.

(** Against C1 as stated: the anchor is matched at cursor [2], no line at
    or after it satisfies either terminator, and the loop returns an
    output, the lines before the anchor and the template, instead of
    failing. *)
Lemma open_route_returns :
  script_anchor_test open_route 2 = Done true /\
  Forall (fun x => first_route_end x = false /\ second_route_end x = false)
         (drop 2 open_route) /\
  fix_orders open_route = Done (take 2 open_route ++ filtered_route) /\
  (forall e, fix_orders open_route <> Raised e).
Proof.
  split_and!; try (vm_compute; reflexivity).
  - repeat constructor.
  - intros e. vm_compute. discriminate.
Qed.

(** The amended C1 at [open_route], whose first block is left open. *)
Lemma unresolved_block_witness :
  7 = length open_route + 1 /\
  length (fix_orders_blocks open_route) = 1 /\
  fix_orders open_route =
  Done (spliced filtered_route open_route
                (take 0 (fix_orders_blocks open_route)) 2 ++ filtered_route).
Proof.
  apply (unresolved_block_consumes_rest route_signature route_marker
           first_route_end second_route_end filtered_route open_route 0 2 7).
  - vm_compute. reflexivity.
  - intros q x Hq Hx.
    do 6 (destruct q as [|q];
          [first [lia | injection Hx as <-; vm_compute; reflexivity]|]).
    discriminate Hx.
Defined.

(** Against C2 as stated: [single_route] has one anchor, at cursor [2],
    and its terminator at line [4]; the output starts with the two lines
    before the signature line, not with the one line before the marker. *)
Lemma single_route_keeps_marker :
  List.filter (script_adjacent single_route) (seq 0 (length single_route)) = [2] /\
  fix_orders_blocks single_route = [(2, 5)] /\
  fix_orders single_route =
  Done (take 2 single_route ++ filtered_route ++ drop 5 single_route) /\
  fix_orders single_route <>
  Done (take 1 single_route ++ filtered_route ++ drop 5 single_route).
Proof.
  split_and!; try (vm_compute; reflexivity).
  vm_compute. discriminate.
Qed.

(** The amended C2 at [single_route]. *)
Lemma single_match_witness :
  fix_orders single_route =
  Done (take 2 single_route ++ filtered_route ++ drop (4 + 1) single_route).
Proof.
  apply (single_match_replacement route_signature route_marker
           first_route_end second_route_end filtered_route single_route 2 4
           (ln "    .toArray();")).
  - lia.
  - vm_compute. reflexivity.
  - intros q Hq Hne.
    do 7 (destruct q as [|q]; [first [lia | vm_compute; reflexivity]|]).
    cbn in Hq. lia.
  - lia.
  - vm_compute. reflexivity.
  - vm_compute. reflexivity.
  - intros q x Hq Hlt Hx.
    do 4 (destruct q as [|q];
          [first [lia | injection Hx as <-; vm_compute; reflexivity]|]).
    lia.
Defined.

(** Against C3 as stated: [two_routes] has two blocks, both closed; line
    [6], the marker line of the second block, is in the output. *)
Lemma two_routes_keep_second_marker :
  fix_orders_blocks two_routes = [(2, 6); (7, 10)] /\
  two_routes !! 6 = Some (ln "// GET /api/orders - Get all orders (legacy)") /\
  fix_orders two_routes =
  Done (take 2 two_routes ++ filtered_route ++
        [ ln "// GET /api/orders - Get all orders (legacy)";
          ln "export default router;" ]).
Proof. split_and!; vm_compute; reflexivity. Qed.

(** The marker line of the second block of [shared_line] is the terminator
    line of the first block: it is inside that block and is not kept. *)
Lemma shared_line_dropped :
  fix_orders_blocks shared_line = [(1, 3); (3, 5)] /\
  fix_orders shared_line =
  Done ([ln "// Get all orders"] ++ filtered_route ++ [ln "tail"]).
Proof. split; vm_compute; reflexivity. Qed.

(** The amended C3 at [two_routes]. *)
Lemma multi_match_witness :
  ordered 1 (fix_orders_blocks two_routes) /\
  Forall (fun b => script_adjacent two_routes b.1 = true)
         (fix_orders_blocks two_routes) /\
  fix_orders two_routes =
  Done (take 2 two_routes ++ filtered_route ++
        between two_routes 6 [(7, 10)] (length two_routes)) /\
  (forall k p' e' p e,
     fix_orders_blocks two_routes !! k = Some (p', e') ->
     fix_orders_blocks two_routes !! S k = Some (p, e) ->
     e' < p ->
     exists m out,
       two_routes !! (p - 1) = Some m /\ fix_orders two_routes = Done out /\
       m ∈ out).
Proof.
  apply (multi_match_drop_after_first route_signature route_marker
           first_route_end second_route_end filtered_route two_routes 2 6
           [(7, 10)]).
  - vm_compute. reflexivity.
  - vm_compute. reflexivity.
  - discriminate.
  - replace (blocks route_signature route_marker first_route_end
                    second_route_end filtered_route two_routes)
      with [(2, 6); (7, 10)] by (vm_compute; reflexivity).
    repeat constructor; cbn; lia.
Defined.

(** Against C6 as stated: no single predicate is the terminator of both
    blocks of [two_routes].  The first block passes over the line [});]
    at position [4]; the second block ends at the same text at position
    [9]. *)
Lemma two_routes_need_two_terminators :
  ~ exists term : string -> bool,
      forall k p e, fix_orders_blocks two_routes !! k = Some (p, e) ->
        (forall q x, p <= q -> q + 1 < e -> two_routes !! q = Some x ->
                     term x = false) /\
        (forall x, two_routes !! (e - 1) = Some x -> term x = true).
Proof.
  intros [term H].
  destruct (H 0 2 6) as [Hfirst _]; [vm_compute; reflexivity|].
  destruct (H 1 7 10) as [_ Hsecond]; [vm_compute; reflexivity|].
  specialize (Hfirst 4 (ln "});")). specialize (Hsecond (ln "});")).
  rewrite Hfirst in Hsecond; [|lia|lia|reflexivity].
  discriminate Hsecond. reflexivity.
Qed.

(** The amended C6 at the second block of [two_routes]. *)
Lemma block_end_witness :
  script_anchor_test two_routes 7 = Done true /\
  7 < 10 /\ 10 <= length two_routes + 1 /\
  (forall q x, 7 <= q -> q + 1 < 10 -> two_routes !! q = Some x ->
               second_route_end x = false) /\
  (forall x, two_routes !! (10 - 1) = Some x -> second_route_end x = true).
Proof.
  apply (block_end_by_ordinal route_signature route_marker
           first_route_end second_route_end filtered_route two_routes 1 7 10).
  vm_compute. reflexivity.
Defined.




(** ** Further properties of the loop *)

Section Further.

Variables (signature marker : string -> bool).
Variables (terminator_first terminator_rest : string -> bool).
Variable (template : list string).

Abbreviation anchor_test := (anchor_test signature marker).
Abbreviation anchor_at := (anchor_at signature marker).
Abbreviation run :=
  (run signature marker terminator_first terminator_rest template).
Abbreviation patch :=
  (patch signature marker terminator_first terminator_rest template).
Abbreviation blocks :=
  (blocks signature marker terminator_first terminator_rest template).
Abbreviation spliced := (spliced template).

(** The test of line 17 has a value only at a cursor inside the input. *)
Lemma anchor_test_Done_lt (lines : list string) p b :
  anchor_test lines p = Done b -> p < length lines.
Proof.
  intros H. destruct (Nat.lt_ge_cases p (length lines)) as [|Hge]; [done|].
  unfold anchor_test, getitem in H.
  replace ((Z.of_nat (length lines) <=? Z.of_nat p)%Z) with true in H
    by (symmetry; apply Z.leb_le; lia).
  rewrite orb_true_r in H. discriminate H.
Qed.

(** The run from the initial state when the test first holds at [p]. *)
Lemma run_first_match (lines : list string) p :
  p < length lines ->
  (forall q, q < p -> anchor_at lines q = false) ->
  anchor_at lines p = true ->
  exists bs s',
    run lines init ((p, find_from lines terminator_first p + 1) :: bs) s' /\
    new_lines s' =
    take p lines ++ template ++
    between lines (find_from lines terminator_first p + 1) bs (length lines).
Proof.
  intros Hp Hbefore Hat.
  destruct (run_total signature marker terminator_first terminator_rest
              template lines
              (State (find_from lines terminator_first p + 1)
                     (take p lines ++ template) true))
    as (bs & s' & Hrun).
  exists bs, s'. split.
  - apply (run_copy_range _ _ _ _ _ _ p 0); [lia| |].
    { intros q _ Hq. apply Hbefore. lia. }
    cbn [Nat.add app]. rewrite drop_0. by apply run_first.
  - rewrite (run_found_output _ _ _ _ _ _ _ _ _ Hrun) by done.
    cbn [new_lines i]. by rewrite <- app_assoc.
Qed.

(** X2: the first block starts at the first cursor where the test of
    line 17 holds; the lines before that cursor are copied unchanged and
    the template follows them. *)
Theorem first_match_starts_first_block (lines : list string) (p : nat) :
  (forall q, q < p -> anchor_test lines q = Done false) ->
  anchor_test lines p = Done true ->
  exists e rest,
    blocks lines = (p, e) :: rest /\
    patch lines =
    Done (take p lines ++ template ++ between lines e rest (length lines)).
Proof.
  intros Hbefore Hat.
  pose proof (anchor_test_Done_lt _ _ _ Hat) as Hp.
  rewrite anchor_test_at in Hat by done.
  destruct (run_first_match lines p Hp) as (bs & s' & Hrun & Hout).
  - intros q Hq. specialize (Hbefore q Hq).
    rewrite anchor_test_at in Hbefore by lia. congruence.
  - congruence.
  - destruct (patch_run _ _ _ _ _ _ _ _ 0 Hrun) as [Hpatch Hblocks].
    rewrite Nat.add_0_r in Hpatch, Hblocks.
    exists (find_from lines terminator_first p + 1), bs.
    unfold blocks, patch. by rewrite Hblocks, Hpatch, Hout.
Qed.

(** X3: a block starts at cursor [0] exactly when the first line passes
    the signature test and the last line of the input passes the marker
    test: at [i = 0] the subscript [i-1] reads the last line. *)
Theorem block_at_cursor_0 (lines : list string) :
  (exists e, blocks lines !! 0 = Some (0, e)) <->
  (exists first final,
     lines !! 0 = Some first /\ last lines = Some final /\
     signature first = true /\ marker final = true).
Proof.
  split.
  - intros [e He].
    destruct (blocks_run signature marker terminator_first terminator_rest
                         template lines) as [s' Hrun].
    destruct (run_block _ _ _ _ _ _ _ _ _ 0 0 e Hrun He) as (Ha & _ & _).
    unfold anchor_at in Ha. cbn [prev_line] in Ha.
    destruct (lines !! 0) as [first|]; [|done].
    destruct (last lines) as [final|]; [|done].
    apply andb_true_iff in Ha as [? ?]. by exists first, final.
  - intros (first & final & Hfirst & Hfinal & Hs & Hm).
    pose proof (lookup_lt_Some _ _ _ Hfirst) as Hlen.
    destruct (run_first_match lines 0 Hlen) as (bs & s' & Hrun & _).
    + intros q Hq. lia.
    + unfold anchor_at. cbn [prev_line]. rewrite Hfirst, Hfinal, Hs, Hm. done.
    + destruct (patch_run _ _ _ _ _ _ _ _ 0 Hrun) as [_ Hblocks].
      rewrite Nat.add_0_r in Hblocks. unfold blocks. rewrite Hblocks.
      by eexists.
Qed.

(** X4: the matched blocks are non-empty, disjoint and in scan order: a
    later block starts at or after the cursor the earlier one left
    behind, so an anchor that lies inside a block never starts one. *)
Theorem blocks_in_order (lines : list string) (k1 k2 p1 e1 p2 e2 : nat) :
  k1 < k2 ->
  blocks lines !! k1 = Some (p1, e1) ->
  blocks lines !! k2 = Some (p2, e2) ->
  p1 < e1 /\ e1 <= p2 /\ p2 < e2.
Proof.
  intros Hk H1 H2.
  destruct (blocks_run signature marker terminator_first terminator_rest
                       template lines) as [s' Hrun].
  pose proof (run_ordered _ _ _ _ _ _ _ _ _ Hrun) as Hord.
  destruct (ordered_lookup _ _ _ _ _ Hord H1) as (_ & Hpe & Hrest).
  assert (Hk2 : drop (S k1) (blocks lines) !! (k2 - S k1) = Some (p2, e2)).
  { rewrite lookup_drop. by replace (S k1 + (k2 - S k1)) with k2 by lia. }
  destruct (ordered_lookup _ _ _ _ _ Hrest Hk2) as (? & ? & _).
  done.
Qed.

Lemma between_length (lines : list string) from bs :
  ordered from bs -> Forall (fun b => b.1 < length lines) bs ->
  length (between lines from bs (length lines)) + dropped (length lines) bs =
  length lines - from.
Proof.
  revert from. induction bs as [|[p e] bs IH]; intros from Hord Hin;
    cbn [between dropped ordered] in *.
  - rewrite length_drop, length_take. lia.
  - destruct Hord as (Hfrom & Hpe & Hord).
    apply Forall_cons in Hin as [Hp Hin]. cbn [fst] in Hp.
    specialize (IH e Hord Hin).
    rewrite length_app, length_drop, length_take. lia.
Qed.

(** X5: every input line is either copied or inside a matched block: the
    length of the output plus the number of lines inside the blocks is the
    length of the input, plus the length of the template when there is a
    block. *)
Theorem line_accounting (lines : list string) :
  exists out,
    patch lines = Done out /\
    length out + dropped (length lines) (blocks lines) =
    length lines +
    match blocks lines with [] => 0 | _ :: _ => length template end.
Proof.
  rewrite patch_spliced. eexists. split; [reflexivity|].
  destruct (blocks_run signature marker terminator_first terminator_rest
                       template lines) as [s' Hrun].
  pose proof (run_ordered _ _ _ _ _ _ _ _ _ Hrun) as Hord. cbn [init i] in Hord.
  assert (Hin : Forall (fun b => b.1 < length lines) (blocks lines)).
  { apply Forall_lookup. intros k [p e] Hk.
    by destruct (run_block _ _ _ _ _ _ _ _ _ k p e Hrun Hk) as (_ & ? & _). }
  unfold spliced.
  destruct (blocks lines) as [|[p e] bs]; cbn [dropped ordered] in *.
  - rewrite length_take. lia.
  - destruct Hord as (_ & Hpe & Hord).
    apply Forall_cons in Hin as [Hp Hin]. cbn [fst] in Hp.
    pose proof (between_length lines e bs Hord Hin).
    rewrite !length_app, length_take. lia.
Qed.

Lemma between_last (lines : list string) from bs p e :
  between lines from (bs ++ [(p, e)]) (length lines) =
  between lines from bs p ++ drop e lines.
Proof.
  revert from. induction bs as [|[p0 e0] bs IH]; intros from;
    cbn [between app].
  - by rewrite (take_ge lines (length lines)) by lia.
  - by rewrite IH, app_assoc.
Qed.

(** X6: the lines after the last matched block are kept as they are: the
    output is what the loop produced up to the last block, then (when that
    block is the first one) the template, then every line after it. *)
Theorem lines_after_last_block (lines : list string)
    (bs : list (nat * nat)) (p e : nat) :
  blocks lines = bs ++ [(p, e)] ->
  patch lines =
  Done (spliced lines bs p ++
        match bs with [] => template | _ :: _ => [] end ++ drop e lines).
Proof.
  intros Hb. rewrite patch_spliced, Hb. unfold spliced.
  destruct bs as [|[p1 e1] mid]; cbn [app between].
  - rewrite (take_ge lines (length lines)) by lia. done.
  - rewrite between_last. by rewrite <- !app_assoc.
Qed.

(** The output for an input with one anchor, read off the positions. *)
Lemma patch_single_block (lines : list string) p j :
  j < length lines ->
  anchor_at lines p = true ->
  (forall q, q < length lines -> q <> p -> anchor_at lines q = false) ->
  find_from lines terminator_first p = j ->
  patch lines = Done (take p lines ++ template ++ drop (j + 1) lines).
Proof.
  intros Hj Hat Hno Hfind.
  pose proof (find_from_ge lines terminator_first p) as Hpj.
  assert (Hrun : run lines init [(p, j + 1)]
                   (State (length lines)
                          (take p lines ++ template ++ drop (j + 1) lines)
                          true)).
  { apply (run_copy_range _ _ _ _ _ _ p 0); [lia| |].
    { intros q _ Hq. apply Hno; lia. }
    cbn [Nat.add app]. rewrite drop_0. rewrite <- Hfind.
    apply run_first; [lia|done|]. rewrite Hfind.
    apply (run_copy_range _ _ _ _ _ _ (length lines - (j + 1)) (j + 1));
      [lia| |].
    { intros q ? ?. apply Hno; lia. }
    replace (j + 1 + (length lines - (j + 1))) with (length lines) by lia.
    rewrite (take_ge lines (length lines)) by lia. rewrite <- app_assoc.
    apply run_stop. cbn. lia. }
  destruct (patch_run _ _ _ _ _ _ _ _ 0 Hrun) as [Hpatch _].
  rewrite Nat.add_0_r in Hpatch. exact Hpatch.
Qed.

End Further.

(** ** Further properties of the script *)

(** The witness of X1: [no_route] has a marker line and a signature line,
    but the signature line does not follow the marker line. *)
Lemma patch_identity_witness : fix_orders no_route = Done no_route.
Proof.
  apply (patch_identity route_signature route_marker first_route_end
           second_route_end filtered_route no_route).
  intros q Hq.
  do 4 (destruct q as [|q]; [vm_compute; reflexivity|]).
  cbn in Hq. lia.
Defined.

Lemma first_match_witness :
  exists e rest,
    fix_orders_blocks two_routes = (2, e) :: rest /\
    fix_orders two_routes =
    Done (take 2 two_routes ++ filtered_route ++
          between two_routes e rest (length two_routes)).
Proof.
  apply (first_match_starts_first_block route_signature route_marker
           first_route_end second_route_end filtered_route two_routes 2).
  - intros q Hq.
    do 2 (destruct q as [|q]; [vm_compute; reflexivity|]). lia.
  - vm_compute. reflexivity.
Defined.

Lemma blocks_in_order_witness : 2 < 6 /\ 6 <= 7 /\ 7 < 10.
Proof.
  apply (blocks_in_order route_signature route_marker first_route_end
           second_route_end filtered_route two_routes 0 1 2 6 7 10).
  - lia.
  - vm_compute. reflexivity.
  - vm_compute. reflexivity.
Defined.

Lemma lines_after_last_block_witness :
  fix_orders two_routes =
  Done (spliced filtered_route two_routes [(2, 6)] 7 ++ [] ++
        drop 10 two_routes).
Proof.
  apply (lines_after_last_block route_signature route_marker first_route_end
           second_route_end filtered_route two_routes [(2, 6)] 7 10).
  vm_compute. reflexivity.
Defined.

Lemma append_cons (x : ascii) (a b : string) :
  String x a +:+ b = String x (a +:+ b).
Proof. reflexivity. Qed.

Lemma append_assoc (a b c : string) : (a +:+ b) +:+ c = a +:+ (b +:+ c).
Proof.
  induction a as [|x a IH]; [reflexivity|].
  rewrite !append_cons. by rewrite IH.
Qed.

Lemma translate_newlines_append (sep a b : string) :
  translate_newlines sep (a +:+ b) =
  translate_newlines sep a +:+ translate_newlines sep b.
Proof.
  induction a as [|x a IH]; [reflexivity|].
  rewrite append_cons. cbn [translate_newlines].
  destruct (Ascii.eqb x LF); rewrite IH.
  - symmetry. apply append_assoc.
  - by rewrite append_cons.
Qed.

(** Writing line by line sends the translation of the whole text. *)
Lemma written_join (sep : string) (lines : list string) :
  written sep lines = translate_newlines sep (join lines).
Proof.
  unfold written, join. induction lines as [|l lines IH]; [reflexivity|].
  cbn [map foldr]. by rewrite IH, translate_newlines_append.
Qed.

(** The lines of a text put together give the text back. *)
Lemma join_split_lines (s : string) : join (split_lines s) = s.
Proof.
  unfold join. induction s as [|c s IH]; [reflexivity|].
  cbn [split_lines]. destruct (Ascii.eqb c LF).
  - cbn [foldr]. rewrite IH. reflexivity.
  - destruct (split_lines s) as [|line rest]; cbn [foldr] in *.
    + by rewrite <- IH.
    + rewrite append_cons. by rewrite IH.
Qed.

(** Reading what was written with the line separator of the platform
    gives the text back, for a text with no carriage return of its own. *)
Lemma universal_newlines_translate (sep s : string) :
  sep = nl \/ sep = crlf -> no_cr s = true ->
  universal_newlines (translate_newlines sep s) = s.
Proof.
  intros Hsep. induction s as [|c s IH]; [reflexivity|].
  cbn [no_cr translate_newlines].
  intros [Hc Hs]%andb_true_iff. specialize (IH Hs).
  apply negb_true_iff in Hc.
  destruct (Ascii.eqb_spec c LF) as [->|Hne].
  - destruct Hsep as [-> | ->].
    + change (universal_newlines (String LF (translate_newlines nl s)) =
              String LF s).
      cbn [universal_newlines]. rewrite Hc. by rewrite IH.
    + change (universal_newlines
                (String CR (String LF (translate_newlines crlf s))) =
              String LF s).
      cbn [universal_newlines].
      rewrite (Ascii.eqb_refl CR), (Ascii.eqb_refl LF). by rewrite IH.
  - cbn [universal_newlines]. rewrite Hc. by rewrite IH.
Qed.

(** X7: a file that is valid UTF-8, uses the line separator of the
    platform ([\n] or [\r\n]) and has no other carriage return, that the
    script may read and write, in which the test of line 17 never holds,
    and for which the device has room, comes back byte for byte: the
    script writes what it read and prints its message. *)
Theorem script_keeps_unmatched_file (p : platform) (w : world) (f : file)
    (text : string) :
  target w = Some f -> may_read f = true -> may_write f = true ->
  utf8_valid (data f) = true ->
  linesep p = nl \/ linesep p = crlf ->
  no_cr text = true ->
  data f = translate_newlines (linesep p) text ->
  (forall q, q < length (split_lines text) ->
             script_anchor_test (split_lines text) q = Done false) ->
  match room p with
  | Some r => String.length (data f) <= r
  | None => True
  end ->
  main p w =
  (Done tt,
   World (Some f) (stdout w ++ [ln "Orders route updated successfully."])).
Proof.
  intros Hf Hread Hwrite Hvalid Hsep Hcr Hdata Hno Hroom.
  unfold main. rewrite Hf, Hread, Hwrite. cbn [negb].
  unfold readlines. rewrite Hvalid, Hdata.
  rewrite (universal_newlines_translate _ _ Hsep Hcr).
  unfold fix_orders.
  rewrite (patch_identity _ _ _ _ _ (split_lines text) Hno).
  rewrite written_join, join_split_lines, <- Hdata.
  assert (Hfile : File (data f) true true = f).
  { destruct f as [d r' w']. cbn in *. by subst. }
  cbn [data]. change (EmptyString +:+ data f) with (data f).
  destruct (room p) as [r|]; [|by rewrite Hfile].
  destruct (Nat.ltb_spec r (String.length (data f))); [lia|by rewrite Hfile].
Qed.

(** The witness of X7: [no_route] with [\r\n] line endings. *)
Lemma script_keeps_unmatched_file_witness :
  main (Platform crlf None) (World (Some no_route_crlf) []) =
  (Done tt,
   World (Some no_route_crlf) ([] ++ [ln "Orders route updated successfully."])).
Proof.
  apply (script_keeps_unmatched_file (Platform crlf None)
           (World (Some no_route_crlf) []) no_route_crlf (join no_route)).
  - reflexivity.
  - reflexivity.
  - reflexivity.
  - vm_compute. reflexivity.
  - right. reflexivity.
  - vm_compute. reflexivity.
  - reflexivity.
  - intros q Hq.
    do 4 (destruct q as [|q]; [vm_compute; reflexivity|]).
    vm_compute in Hq. lia.
  - exact I.
Defined.

(** No line of the template before its last one ends the first block. *)
Lemma template_body_has_no_end k x :
  k < 28 -> filtered_route !! k = Some x -> first_route_end x = false.
Proof.
  intros Hk Hx.
  do 28 (destruct k as [|k];
         [injection Hx as <-; vm_compute; reflexivity|]).
  lia.
Qed.

Lemma template_lookup (pre post : list string) k :
  k < 29 ->
  (pre ++ filtered_route ++ post) !! (length pre + k) = filtered_route !! k.
Proof.
  intros Hk. rewrite lookup_app_r by lia.
  replace (length pre + k - length pre) with k by lia.
  by rewrite lookup_app_l.
Qed.

(** X8: the script is not idempotent.  The template is itself a matched
    block: its second line passes the signature test, its first line the
    marker test, and its last line is its first [.toArray();] line.  On a
    file that contains the template, and where the test of line 17 holds
    nowhere else, the script copies the template's comment line and then
    puts the whole template again: each run adds one comment line. *)
Theorem rerun_adds_comment_line (pre post : list string) :
  (forall q, q < length (pre ++ filtered_route ++ post) ->
             q <> length pre + 1 ->
             script_anchor_test (pre ++ filtered_route ++ post) q = Done false) ->
  fix_orders (pre ++ filtered_route ++ post) =
  Done (pre ++ take 1 filtered_route ++ filtered_route ++ post).
Proof.
  intros Hno. set (lines := pre ++ filtered_route ++ post) in *.
  assert (Hlen : length lines = length pre + 29 + length post).
  { unfold lines. rewrite !length_app. cbn. lia. }
  assert (Hat : anchor_at route_signature route_marker lines
                          (length pre + 1) = true).
  { unfold anchor_at. replace (length pre + 1) with (S (length pre)) by lia.
    cbn [prev_line].
    replace (S (length pre)) with (length pre + 1) by lia.
    replace (lines !! length pre) with (lines !! (length pre + 0))
      by (f_equal; lia).
    unfold lines. rewrite !template_lookup by lia. vm_compute. reflexivity. }
  assert (Hfind : find_from lines first_route_end (length pre + 1) =
                  length pre + 28).
  { apply (find_from_first lines first_route_end _ _ (ln "      .toArray();"));
      [lia| | |].
    - unfold lines. rewrite template_lookup by lia. reflexivity.
    - vm_compute. reflexivity.
    - intros q x Hq Hlt Hx.
      replace q with (length pre + (q - length pre)) in Hx by lia.
      unfold lines in Hx. rewrite template_lookup in Hx by lia.
      apply (template_body_has_no_end (q - length pre) x); [lia|done]. }
  unfold fix_orders.
  rewrite (patch_single_block _ _ _ _ _ lines (length pre + 1)
             (length pre + 28)); [|lia|done| |done].
  - f_equal. unfold lines.
    rewrite take_app_add.
    replace (length pre + 28 + 1) with (length pre + 29) by lia.
    rewrite drop_app_add.
    change 29 with (length filtered_route + 0).
    rewrite drop_app_add, drop_0.
    rewrite (take_app_le filtered_route post 1) by (cbn; lia).
    by rewrite <- app_assoc.
  - intros q Hq Hne. specialize (Hno q Hq Hne).
    rewrite anchor_test_at in Hno by done. congruence.
Qed.

(** The witness of X8: the script run on what it made of [single_route]. *)
Lemma rerun_witness :
  fix_orders patched_route =
  Done (take 2 single_route ++ take 1 filtered_route ++ filtered_route ++
        drop 5 single_route).
Proof.
  apply (rerun_adds_comment_line (take 2 single_route) (drop 5 single_route)).
  intros q Hq Hne.
  do 33 (destruct q as [|q];
         [first [exfalso; apply Hne; reflexivity | vm_compute; reflexivity]|]).
  cbn in Hq. lia.
Defined.

(** X9: the inner loop started at a cursor [n] inside the input ends
    within [len(lines) - n + 1] turns without raising; it stops at the
    first line at or after [n] that satisfies the terminator, or at
    [len(lines)] when there is none, and reads no line beyond that. *)
Theorem scan_stops_at_first (lines : list string) (term : string -> bool)
    (fuel n : nat) :
  n <= length lines -> length lines - n < fuel ->
  exists j,
    scan lines term fuel n = Done j /\
    n <= j /\ j <= length lines /\
    (forall q x, n <= q -> q < j -> lines !! q = Some x -> term x = false) /\
    (forall x, lines !! j = Some x -> term x = true).
Proof.
  intros Hn Hfuel. exists (find_from lines term n).
  split_and!.
  - by apply scan_find.
  - apply find_from_ge.
  - by apply find_from_le.
  - intros q x. apply find_from_before.
  - intros x. apply find_from_there.
Qed.

Lemma scan_witness :
  exists j,
    scan two_routes second_route_end 5 7 = Done j /\
    7 <= j /\ j <= length two_routes /\
    (forall q x, 7 <= q -> q < j -> two_routes !! q = Some x ->
                 second_route_end x = false) /\
    (forall x, two_routes !! j = Some x -> second_route_end x = true).
Proof.
  apply (scan_stops_at_first two_routes second_route_end 5 7).
  - cbn. lia.
  - cbn. lia.
Defined.
